(** * Brace-balanced section extractor: [verification/split_yul_code.py]

    A shallow embedding of the three functions of the script
    ([find_matching_brace], [extract_code_sections], [split_yul_code])
    together with the Python built-ins they call, and the properties of
    the extractor stated over that embedding.

    Conventions.
    - A Python [str] is a sequence of Unicode code points: [str := list N].
    - A Python [int] is unbounded: offsets are in [Z], and the sentinel of
      [str.find] and of [find_matching_brace] is [-1].
    - A Python exception is a value of [exn], carried by [result].
    - The file system is a finite map from path to content, and the
      standard output is the list of printed lines. *)

From stdpp Require Import base numbers list strings gmap.
From Stdlib Require Import ZArith Lia.

Local Open Scope Z_scope.

(** ** Exceptions *)

Inductive exn : Type :=
  | IndexError
  | FileNotFoundError.

Inductive result (A : Type) : Type :=
  | Ok (a : A)
  | Raise (e : exn).

Arguments Ok {A} a.
Arguments Raise {A} e.

(** Sequencing stops at the first exception; [x ← r; k] is the monadic
    bind of [result]. *)
#[global] Instance result_bind : MBind result := λ A B k r,
  match r with
  | Ok a => k a
  | Raise e => Raise e
  end.

(** ** Python strings *)

Definition char : Type := N.
Definition str : Type := list char.

(** The code point sequence of an ASCII literal. *)
Definition py (s : string) : str :=
  map Ascii.N_of_ascii (String.list_ascii_of_string s).

Definition lbrace : char := 123%N.   (* opening brace *)
Definition rbrace : char := 125%N.   (* closing brace *)
Definition dquote : char := 34%N.    (* double quote *)
Definition newline : char := 10%N.   (* line feed *)

Module Py.

(** [len(s)] *)
Definition len (s : str) : Z := Z.of_nat (length s).

(** [s[i]]: a negative index counts from the end; an index outside
    [-len(s) <= i < len(s)] raises [IndexError]. *)
Definition getitem (s : str) (i : Z) : result char :=
  let j := if i <? 0 then i + len s else i in
  if (j <? 0) || (len s <=? j) then Raise IndexError
  else match s !! Z.to_nat j with
       | Some c => Ok c
       | None => Raise IndexError
       end.

(** [range(a, b)] *)
Definition range (a b : Z) : list Z :=
  map (fun k : nat => a + Z.of_nat k) (seq 0 (Z.to_nat (b - a))).

(** [s.startswith(sub)] *)
Fixpoint startswith (s sub : str) : bool :=
  match sub, s with
  | [], _ => true
  | _ :: _, [] => false
  | c :: sub', d :: s' => (c =? d)%N && startswith s' sub'
  end.

(** Scan for [sub] in the suffix [s] of the text that starts at
    offset [i]. *)
Fixpoint find_from (s sub : str) (i : nat) : option nat :=
  if startswith s sub then Some i
  else match s with
       | [] => None
       | _ :: s' => find_from s' sub (S i)
       end.

(** The slice index adjustment shared by [str.find] and [s[a:b]]:
    a negative index counts from the end and is clipped at [0]. *)
Definition adjust (n i : Z) : Z :=
  if i <? 0 then Z.max (i + n) 0 else i.

(** [s.find(sub, start)]: the lowest offset [>= start] at which [sub]
    occurs in [s], or [-1]. *)
Definition find (s sub : str) (start : Z) : Z :=
  let st := adjust (len s) start in
  if len s <? st then -1
  else match find_from (drop (Z.to_nat st) s) sub (Z.to_nat st) with
       | Some i => Z.of_nat i
       | None => -1
       end.

(** [s[a:b]] *)
Definition slice (s : str) (a b : Z) : str :=
  let a' := Z.min (adjust (len s) a) (len s) in
  let b' := Z.min (adjust (len s) b) (len s) in
  take (Z.to_nat (b' - a')) (drop (Z.to_nat a') s).

(** [c.isspace()]: the code points CPython treats as whitespace. *)
Definition isspace (c : char) : bool :=
  ((9 <=? c) && (c <=? 13) || (28 <=? c) && (c <=? 32)
   || (c =? 133) || (c =? 160) || (c =? 5760)
   || (8192 <=? c) && (c <=? 8202)
   || (c =? 8232) || (c =? 8233) || (c =? 8239) || (c =? 8287)
   || (c =? 12288))%N.

Fixpoint lstrip (s : str) : str :=
  match s with
  | [] => []
  | c :: s' => if isspace c then lstrip s' else s
  end.

Definition rstrip (s : str) : str := rev (lstrip (rev s)).

(** [s.strip()] *)
Definition strip (s : str) : str := rstrip (lstrip s).

End Py.

(** ** [find_matching_brace] *)

(** The body of the [for pos in range(start_pos, len(text))] loop, with
    the loop variable ranging over [positions] and the local
    [open_braces] threaded through. Leaving the loop returns [-1]. *)
Fixpoint find_matching_brace_loop
    (text : str) (positions : list Z) (open_braces : Z) : result Z :=
  match positions with
  | [] => Ok (-1)
  | pos :: rest =>
      c ← Py.getitem text pos;
      if (c =? lbrace)%N then
        find_matching_brace_loop text rest (open_braces + 1)
      else if (c =? rbrace)%N then
        let open_braces := open_braces - 1 in
        if open_braces =? 0 then Ok pos
        else find_matching_brace_loop text rest open_braces
      else find_matching_brace_loop text rest open_braces
  end.

Definition find_matching_brace (text : str) (start_pos : Z) : result Z :=
  find_matching_brace_loop text (Py.range start_pos (Py.len text)) 0.

(** ** [extract_code_sections] *)

(** ['object "plonk_verifier" {'] *)
Definition anchor_creation : str :=
  py "object " ++ [dquote] ++ py "plonk_verifier" ++ [dquote] ++ py " {".

(** ['object "Runtime" {'] *)
Definition anchor_runtime : str :=
  py "object " ++ [dquote] ++ py "Runtime" ++ [dquote] ++ py " {".

(** ['code {'] *)
Definition anchor_code : str := py "code {".

Definition extract_code_sections (yul_code : str)
  : result (option str * option str) :=
  let creation_start := Py.find yul_code anchor_creation 0 in
  if creation_start =? -1 then Ok (None, None) else
  let creation_code_start := Py.find yul_code anchor_code creation_start in
  if creation_code_start =? -1 then Ok (None, None) else
  let creation_code_start := creation_code_start + Py.len (py "code") in
  creation_code_end ← find_matching_brace yul_code creation_code_start;
  if creation_code_end =? -1 then Ok (None, None) else
  let runtime_start := Py.find yul_code anchor_runtime creation_code_end in
  if runtime_start =? -1 then Ok (None, None) else
  let runtime_code_start := Py.find yul_code anchor_code runtime_start in
  if runtime_code_start =? -1 then Ok (None, None) else
  let runtime_code_start := runtime_code_start + Py.len (py "code") in
  runtime_code_end ← find_matching_brace yul_code runtime_code_start;
  if runtime_code_end =? -1 then Ok (None, None) else
  let creation_code :=
    Py.strip (Py.slice yul_code creation_code_start creation_code_end) in
  let runtime_code :=
    Py.strip (Py.slice yul_code runtime_code_start runtime_code_end) in
  Ok (Some creation_code, Some runtime_code).

(** ** [split_yul_code] *)

(** The part of the environment the script acts on. Opening a path for
    writing creates or truncates it; only a missing input is modelled as
    an I/O failure. *)
Record world : Type := World {
  files : gmap str str;
  stdout : list str
}.

Definition read_file (path : str) (w : world) : result str :=
  match files w !! path with
  | Some content => Ok content
  | None => Raise FileNotFoundError
  end.

Definition write_file (path content : str) (w : world) : world :=
  World (<[path := content]> (files w)) (stdout w).

Definition print (line : str) (w : world) : world :=
  World (files w) (stdout w ++ [line]).

Definition msg_mismatch : str :=
  py "The Yul code structure does not match the expected pattern.".

Definition msg_written (output_filename1 output_filename2 : str) : str :=
  py "Code sections successfully written to " ++ output_filename1
  ++ py " and " ++ output_filename2 ++ py ".".

(** [f'object "plonk_verifier" {{\n    code {{{creation_code}\n    }}\n}}'] *)
Definition output_code1 (creation_code : str) : str :=
  anchor_creation ++ [newline] ++ py "    code {" ++ creation_code
  ++ [newline] ++ py "    }" ++ [newline] ++ py "}".

(** [f'object "Runtime" {{\n    code {{{runtime_code}\n    }}\n}}'] *)
Definition output_code2 (runtime_code : str) : str :=
  anchor_runtime ++ [newline] ++ py "    code {" ++ runtime_code
  ++ [newline] ++ py "    }" ++ [newline] ++ py "}".

(** The line feed and closing brace appended at each [write]. *)
Definition closing : str := [newline; rbrace].

Definition split_yul_code
    (input_filename output_filename1 output_filename2 : str) (w : world)
  : result world :=
  yul_code ← read_file input_filename w;
  sections ← extract_code_sections yul_code;
  match sections with
  | (Some creation_code, Some runtime_code) =>
      let w := write_file output_filename1
                 (output_code1 creation_code ++ closing) w in
      let w := write_file output_filename2
                 (output_code2 runtime_code ++ closing) w in
      Ok (print (msg_written output_filename1 output_filename2) w)
  | _ => Ok (print msg_mismatch w)
  end.

(** ** Sample inputs *)

(** The spec's two-object scenario. *)
Definition sample : str :=
  anchor_creation ++ py " code { MSTORE(0,1) } } "
  ++ anchor_runtime ++ py " code { RETURN(0,0) } }".

(** The first anchor is present but its block is never closed. *)
Definition truncated : str :=
  anchor_creation ++ py " code { MSTORE(0,1) ".

(** The spec's nested scenario; the outer opening brace is at offset 5. *)
Definition nested : str := py "code { if eq(x,1) { sstore(0,1) } }".

(** The text of the second anchor also occurs inside the first block. *)
Definition shadowed : str :=
  anchor_creation ++ py " code { " ++ anchor_runtime ++ py " code { A } } } } "
  ++ anchor_runtime ++ py " code { B } }".

(** A file system holding one input file. *)
Definition disk (yul_code : str) : world :=
  World {[ py "in.yul" := yul_code ]} [].

(** ** Specification vocabulary *)

(** Number of occurrences of a character. *)
Fixpoint count (c : char) (s : str) : Z :=
  match s with
  | [] => 0
  | d :: s' => (if (d =? c)%N then 1 else 0) + count c s'
  end.

(** Brace depth of a text: opening minus closing braces. *)
Definition depth (s : str) : Z := count lbrace s - count rbrace s.

(** The characters at offsets [a <= i < b], for [0 <= a]. *)
Definition span (text : str) (a b : Z) : str :=
  take (Z.to_nat (b - a)) (drop (Z.to_nat a) text).

(** Offset [e] holds a closing brace at which the depth counted from
    offset [start] (inclusive of both ends) is zero. *)
Definition closes (text : str) (start e : Z) : Prop :=
  start ≤ e ∧ text !! Z.to_nat e = Some rbrace
  ∧ depth (span text start (e + 1)) = 0.

(** [e] is the first such offset. *)
Definition matching (text : str) (start e : Z) : Prop :=
  closes text start e ∧ ∀ q, q < e → ¬ closes text start q.

(** [sub] occurs in [s] at offset [i]. *)
Definition occurs_at (s sub : str) (i : Z) : Prop :=
  0 ≤ i ≤ Py.len s ∧ take (length sub) (drop (Z.to_nat i) s) = sub.

(** [i] is the first offset [>= start] at which [sub] occurs. *)
Definition first_occ (s sub : str) (start i : Z) : Prop :=
  start ≤ i ∧ occurs_at s sub i
  ∧ ∀ j, start ≤ j < i → ¬ occurs_at s sub j.

(** [sub] does not occur at or after [start]. *)
Definition no_occ (s sub : str) (start : Z) : Prop :=
  ∀ j, start ≤ j → ¬ occurs_at s sub j.

(** The two anchored blocks of a text: the first anchor at [p1], its
    [code {] at [p2] closed at [e1]; then the second anchor at [p3], its
    [code {] at [p4] closed at [e2]. Brace matching starts at the
    character that follows the keyword [code]. *)
Record layout (s : str) (p1 p2 e1 p3 p4 e2 : Z) : Prop := Layout {
  lay_creation : first_occ s anchor_creation 0 p1;
  lay_creation_code : first_occ s anchor_code p1 p2;
  lay_creation_end : matching s (p2 + 4) e1;
  lay_runtime : first_occ s anchor_runtime e1 p3;
  lay_runtime_code : first_occ s anchor_code p3 p4;
  lay_runtime_end : matching s (p4 + 4) e2
}.


(** A text is well formed when it has such a layout. *)
Definition well_formed (s : str) : Prop :=
  ∃ p1 p2 e1 p3 p4 e2, layout s p1 p2 e1 p3 p4 e2.

(** One of the four anchors or one of the two closing braces is absent. *)
Inductive missing (s : str) : Prop :=
  | missing_creation :
      no_occ s anchor_creation 0 → missing s
  | missing_creation_code p1 :
      first_occ s anchor_creation 0 p1 →
      no_occ s anchor_code p1 → missing s
  | missing_creation_end p1 p2 :
      first_occ s anchor_creation 0 p1 →
      first_occ s anchor_code p1 p2 →
      (∀ e, ¬ closes s (p2 + 4) e) → missing s
  | missing_runtime p1 p2 e1 :
      first_occ s anchor_creation 0 p1 →
      first_occ s anchor_code p1 p2 →
      matching s (p2 + 4) e1 →
      no_occ s anchor_runtime e1 → missing s
  | missing_runtime_code p1 p2 e1 p3 :
      first_occ s anchor_creation 0 p1 →
      first_occ s anchor_code p1 p2 →
      matching s (p2 + 4) e1 →
      first_occ s anchor_runtime e1 p3 →
      no_occ s anchor_code p3 → missing s
  | missing_runtime_end p1 p2 e1 p3 p4 :
      first_occ s anchor_creation 0 p1 →
      first_occ s anchor_code p1 p2 →
      matching s (p2 + 4) e1 →
      first_occ s anchor_runtime e1 p3 →
      first_occ s anchor_code p3 p4 →
      (∀ e, ¬ closes s (p4 + 4) e) → missing s.

(** ** [concatenate_files] *)

(** An action on the environment: the environment it leaves behind and
    the value it returns or the exception it raises. *)
Definition io (A : Type) : Type := world → world * result A.

#[global] Instance io_ret : MRet io := λ A a w, (w, Ok a).

#[global] Instance io_bind : MBind io := λ A B k m w,
  match m w with
  | (w', Ok a) => k a w'
  | (w', Raise e) => (w', Raise e)
  end.

(** [with open(path, 'r') as file: file.read()] *)
Definition open_read (path : str) : io str :=
  λ w, (w, read_file path w).

(** [with open(path, 'w') as file: file.write(content)] *)
Definition open_write (path content : str) : io unit :=
  λ w, (write_file path content w, Ok ()).

(** The [for file_path in input_files] loop, with the local
    [concatenated_content] threaded through. *)
Fixpoint concatenate_files_loop
    (input_files : list str) (concatenated_content : str) : io str :=
  match input_files with
  | [] => mret concatenated_content
  | file_path :: rest =>
      data ← open_read file_path;
      concatenate_files_loop rest (concatenated_content ++ data)
  end.

Definition concatenate_files (output_file : str) (input_files : list str)
  : io unit :=
  concatenated_content ← concatenate_files_loop input_files [];
  open_write output_file concatenated_content.

(** ** Specification vocabulary, continued *)

(** The scan of [find_matching_brace] over the characters it reads, in
    the order it reads them: the index of the first closing brace that
    brings [open_braces] to zero. *)
Fixpoint scan (cs : str) (open_braces : Z) : option nat :=
  match cs with
  | [] => None
  | c :: rest =>
      if (c =? lbrace)%N then S <$> scan rest (open_braces + 1)
      else if (c =? rbrace)%N then
        if open_braces - 1 =? 0 then Some 0%nat
        else S <$> scan rest (open_braces - 1)
      else S <$> scan rest open_braces
  end.

(** The position reported for index [k] of the scan over the positions
    [start_pos, start_pos + 1, ...], or the sentinel. *)
Definition reported (start_pos : Z) (k : option nat) : Z :=
  match k with
  | Some k => start_pos + Z.of_nat k
  | None => -1
  end.

(** The contents of the files at [paths], in order, when all exist. *)
Fixpoint contents (m : gmap str str) (paths : list str) : option str :=
  match paths with
  | [] => Some []
  | path :: rest =>
      match (m !! path : option str), contents m rest with
      | Some data, Some more => Some (data ++ more)
      | _, _ => None
      end
  end.

(** * Lemmas *)

(** ** Counting *)

Lemma count_app c s t : count c (s ++ t) = count c s + count c t.
Proof. induction s as [|d s IH]; simpl; lia. Qed.

Lemma count_nonneg c s : 0 ≤ count c s.
Proof. induction s as [|d s IH]; simpl; [lia|]. destruct (d =? c)%N; lia. Qed.

Lemma count_rev c s : count c (rev s) = count c s.
Proof.
  induction s as [|d s IH]; simpl; [done|].
  rewrite count_app, IH. simpl. lia.
Qed.

Lemma depth_app s t : depth (s ++ t) = depth s + depth t.
Proof. unfold depth. rewrite !count_app. lia. Qed.

Lemma depth_cons c s : depth (c :: s) = depth [c] + depth s.
Proof. apply (depth_app [c] s). Qed.

Lemma depth_lbrace : depth [lbrace] = 1.
Proof. reflexivity. Qed.

Lemma depth_rbrace : depth [rbrace] = -1.
Proof. reflexivity. Qed.

Lemma depth_other c : c ≠ lbrace → c ≠ rbrace → depth [c] = 0.
Proof.
  intros Hl Hr. unfold depth. simpl.
  destruct (N.eqb_spec c lbrace), (N.eqb_spec c rbrace); congruence || lia.
Qed.

(** ** Spans *)

Lemma span_empty text a : span text a a = [].
Proof. unfold span. by rewrite Z.sub_diag. Qed.

Lemma span_cons text a b c :
  0 ≤ a < b → text !! Z.to_nat a = Some c →
  span text a b = c :: span text (a + 1) b.
Proof.
  intros Hab Hc. unfold span.
  rewrite (drop_S _ _ _ Hc).
  replace (Z.to_nat (b - a)) with (S (Z.to_nat (b - (a + 1)))) by lia.
  simpl. do 2 f_equal. f_equal. lia.
Qed.

Lemma span_split text a b c :
  0 ≤ a ≤ b → b ≤ c → span text a c = span text a b ++ span text b c.
Proof.
  intros Hab Hbc. unfold span.
  replace (Z.to_nat (c - a)) with (Z.to_nat (b - a) + Z.to_nat (c - b))%nat
    by lia.
  rewrite <- take_take_drop. f_equal. rewrite drop_drop. do 2 f_equal. lia.
Qed.

(** ** Built-ins *)

Lemma range_nil a b : b ≤ a → Py.range a b = [].
Proof. intros H. unfold Py.range. by replace (Z.to_nat (b - a)) with 0%nat by lia. Qed.

Lemma range_cons a b : a < b → Py.range a b = a :: Py.range (a + 1) b.
Proof.
  intros H. unfold Py.range.
  replace (Z.to_nat (b - a)) with (S (Z.to_nat (b - (a + 1)))) by lia.
  simpl. f_equal; [lia|].
  rewrite <- seq_shift, map_map. apply map_ext. intros k. lia.
Qed.

Lemma lookup_in_range (text : str) i :
  0 ≤ i < Py.len text → ∃ c, text !! Z.to_nat i = Some c.
Proof.
  intros H. apply lookup_lt_is_Some. unfold Py.len in H. lia.
Qed.

Lemma lookup_lt_len (text : str) i c :
  0 ≤ i → text !! Z.to_nat i = Some c → i < Py.len text.
Proof.
  intros H Hc. apply lookup_lt_Some in Hc. unfold Py.len. lia.
Qed.

Lemma getitem_ok text i c :
  0 ≤ i → text !! Z.to_nat i = Some c → Py.getitem text i = Ok c.
Proof.
  intros H Hc. pose proof (lookup_lt_len _ _ _ H Hc) as Hlt.
  unfold Py.getitem.
  destruct (Z.ltb_spec i 0); [lia|].
  destruct (Z.ltb_spec i 0); [lia|].
  destruct (Z.leb_spec (Py.len text) i); [lia|].
  simpl. by rewrite Hc.
Qed.

(** ** The brace matcher *)

Section matcher.

Context (text : str) (start : Z) (Hstart : 0 ≤ start).

Lemma closes_lt_len e : closes text start e → e < Py.len text.
Proof.
  intros (Hle & Hc & _). apply (lookup_lt_len text e rbrace); [lia | done].
Qed.

Lemma matching_ge e : matching text start e → start ≤ e.
Proof. by intros [(? & _) _]. Qed.

Lemma matching_unique e e' :
  matching text start e → matching text start e' → e = e'.
Proof.
  intros [Hc Hmin] [Hc' Hmin'].
  destruct (Z.lt_trichotomy e e') as [Hlt | [Heq | Hgt]]; [|done|].
  - by destruct (Hmin' e Hlt).
  - by destruct (Hmin e' Hgt).
Qed.

Lemma depth_span_step pos c :
  start ≤ pos → text !! Z.to_nat pos = Some c →
  depth (span text start (pos + 1)) = depth (span text start pos) + depth [c].
Proof.
  intros Hpos Hc.
  rewrite (span_split text start pos (pos + 1)) by lia.
  rewrite depth_app. f_equal.
  rewrite (span_cons text pos (pos + 1) c) by (done || lia).
  by rewrite span_empty.
Qed.

(** Loop invariant: on entry to the iteration at [pos], [open_braces] is
    the depth of the text between [start] and [pos], and no offset
    before [pos] closes the block. *)
Lemma find_matching_brace_loop_spec (n : nat) pos d :
  start ≤ pos → Z.of_nat n = Py.len text - pos →
  d = depth (span text start pos) →
  (∀ q, q < pos → ¬ closes text start q) →
  (find_matching_brace_loop text (Py.range pos (Py.len text)) d = Ok (-1)
   ∧ ∀ e, ¬ closes text start e)
  ∨ (∃ e, find_matching_brace_loop text (Py.range pos (Py.len text)) d
          = Ok e ∧ matching text start e).
Proof.
  revert pos d. induction n as [|n IH]; intros pos d Hpos Hn Hd Hbefore.
  - left. rewrite range_nil by lia. split; [done|].
    intros e He. destruct (Z.lt_ge_cases e pos) as [Hlt|Hge].
    + by apply (Hbefore e).
    + apply closes_lt_len in He; lia.
  - rewrite range_cons by lia.
    destruct (lookup_in_range text pos) as [c Hc]; [lia|].
    cbn [find_matching_brace_loop].
    rewrite (getitem_ok text pos c) by (done || lia).
    cbn [mbind result_bind].
    pose proof (depth_span_step pos c Hpos Hc) as Hstep.
    destruct (N.eqb_spec c lbrace) as [-> | Hnl].
    { apply IH; [lia | lia | rewrite Hstep, depth_lbrace; lia |].
      intros q Hq Hcl. destruct (Z.eq_dec q pos) as [-> | Hne].
      - destruct Hcl as (_ & Hcl & _). rewrite Hc in Hcl. discriminate.
      - apply (Hbefore q); [lia | done]. }
    destruct (N.eqb_spec c rbrace) as [-> | Hnr].
    { rewrite depth_rbrace in Hstep. cbn zeta.
      destruct (Z.eqb_spec (d - 1) 0) as [Hz | Hnz].
      - right. exists pos. split; [done|]. split; [|done].
        repeat split; [lia | done | lia].
      - apply IH; [lia | lia | lia |].
        intros q Hq Hcl. destruct (Z.eq_dec q pos) as [-> | Hne].
        + destruct Hcl as (_ & _ & Hcl). lia.
        + apply (Hbefore q); [lia | done]. }
    rewrite depth_other in Hstep by done.
    apply IH; [lia | lia | lia |].
    intros q Hq Hcl. destruct (Z.eq_dec q pos) as [-> | Hne].
    + destruct Hcl as (_ & Hcl & _). rewrite Hc in Hcl. congruence.
    + apply (Hbefore q); [lia | done].
Qed.

Lemma find_matching_brace_spec :
  (find_matching_brace text start = Ok (-1) ∧ ∀ e, ¬ closes text start e)
  ∨ (∃ e, find_matching_brace text start = Ok e ∧ matching text start e).
Proof.
  unfold find_matching_brace.
  destruct (Z.le_gt_cases start (Py.len text)) as [Hle | Hgt].
  - apply (find_matching_brace_loop_spec (Z.to_nat (Py.len text - start)));
      [lia | lia | | ].
    + by rewrite span_empty.
    + intros q Hq (Hq' & _). lia.
  - left. rewrite range_nil by lia. split; [done|].
    intros e He. pose proof (closes_lt_len _ He).
    destruct He as (? & _). lia.
Qed.

Lemma find_matching_brace_found e :
  matching text start e → find_matching_brace text start = Ok e.
Proof.
  intros Hm.
  destruct find_matching_brace_spec as [[_ Hno] | (e' & He' & Hm')].
  - destruct Hm as [Hc _]. by destruct (Hno e).
  - by rewrite (matching_unique _ _ Hm Hm').
Qed.

Lemma find_matching_brace_found_inv e :
  find_matching_brace text start = Ok e → e ≠ -1 → matching text start e.
Proof.
  intros He Hne.
  destruct find_matching_brace_spec as [[Hr _] | (e' & He' & Hm')];
    congruence.
Qed.

Lemma find_matching_brace_none :
  (∀ e, ¬ closes text start e) → find_matching_brace text start = Ok (-1).
Proof.
  intros Hno.
  destruct find_matching_brace_spec as [[Hr _] | (e' & He' & [Hc _])];
    [done|]. by destruct (Hno e').
Qed.

Lemma find_matching_brace_none_inv :
  find_matching_brace text start = Ok (-1) → ∀ e, ¬ closes text start e.
Proof.
  intros Hr.
  destruct find_matching_brace_spec as [[_ Hno] | (e' & He' & Hm')];
    [done|].
  apply matching_ge in Hm'. rewrite Hr in He'. injection He' as <-. lia.
Qed.

(** Cut just before its match, a block holds one unmatched opening
    brace. *)
Lemma matching_depth_before e :
  matching text start e → depth (span text start e) = 1.
Proof.
  intros [(Hle & Hc & Hd) _].
  rewrite (depth_span_step e rbrace) in Hd by (done || lia).
  rewrite depth_rbrace in Hd. lia.
Qed.

(** Between an opening brace and its match the depth stays positive:
    every closing brace met on the way closes an inner block. *)
Lemma matching_depth_pos e :
  text !! Z.to_nat start = Some lbrace →
  matching text start e →
  ∀ q, start ≤ q < e → 1 ≤ depth (span text start (q + 1)).
Proof.
  intros Hopen [Hcl Hmin].
  pose proof (closes_lt_len _ Hcl) as Hlen.
  assert (∀ n : nat, start + Z.of_nat n < e →
            1 ≤ depth (span text start (start + Z.of_nat n + 1))) as Hind.
  { induction n as [|n IH]; intros Hn.
    - rewrite Z.add_0_r.
      rewrite (depth_span_step start lbrace) by (done || lia).
      rewrite span_empty, depth_lbrace. done.
    - specialize (IH ltac:(lia)).
      destruct (lookup_in_range text (start + Z.of_nat (S n))) as [c Hc];
        [lia|].
      rewrite (depth_span_step _ c) by (done || lia).
      replace (start + Z.of_nat (S n)) with (start + Z.of_nat n + 1) in * by lia.
      destruct (N.eq_dec c rbrace) as [-> | Hnr].
      + rewrite depth_rbrace.
        destruct (Z.eq_dec (depth (span text start (start + Z.of_nat n + 1))) 1)
          as [Hone | Hne]; [|lia].
        destruct (Hmin (start + Z.of_nat n + 1)); [lia|].
        repeat split; [lia | done |].
        rewrite (depth_span_step _ rbrace) by (done || lia).
        rewrite depth_rbrace. lia.
      + destruct (N.eq_dec c lbrace) as [-> | Hnl].
        * rewrite depth_lbrace. lia.
        * rewrite depth_other by done. lia. }
  intros q Hq. specialize (Hind (Z.to_nat (q - start))).
  replace (start + Z.of_nat (Z.to_nat (q - start))) with q in Hind by lia.
  apply Hind. lia.
Qed.

(** Starting the count one character earlier, on a character that is
    not a brace, selects the same closing brace. *)
Lemma closes_skip e c :
  text !! Z.to_nat start = Some c → c ≠ lbrace → c ≠ rbrace →
  closes text start e ↔ closes text (start + 1) e.
Proof.
  intros Hc Hnl Hnr.
  assert (∀ e, start + 1 ≤ e →
            depth (span text start (e + 1))
            = depth (span text (start + 1) (e + 1))) as Hdepth.
  { intros e' He'. rewrite (span_cons text start (e' + 1) c) by (done || lia).
    rewrite depth_cons, depth_other by done. lia. }
  split; intros (Hle & He & Hd).
  - assert (e ≠ start) by (intros ->; congruence).
    repeat split; [lia | done |]. rewrite <- Hdepth by lia. done.
  - repeat split; [lia | done |]. rewrite Hdepth by lia. done.
Qed.

Lemma matching_skip e c :
  text !! Z.to_nat start = Some c → c ≠ lbrace → c ≠ rbrace →
  matching text start e ↔ matching text (start + 1) e.
Proof.
  intros Hc Hnl Hnr. unfold matching.
  rewrite (closes_skip e c) by done.
  split; intros [Hcl Hmin]; (split; [done|]); intros q Hq Hq';
    apply (Hmin q Hq); by apply (closes_skip q c).
Qed.

End matcher.

(** ** Substring search *)

Lemma startswith_spec s sub :
  Py.startswith s sub = true ↔ take (length sub) s = sub.
Proof.
  revert s. induction sub as [|c sub IH]; intros [|d s]; simpl; try done.
  rewrite andb_true_iff, IH, N.eqb_eq. split.
  - by intros [-> ->].
  - intros [= -> ->]. done.
Qed.

Lemma find_from_spec sub s i :
  match Py.find_from s sub i with
  | Some r =>
      ∃ k, r = (i + k)%nat ∧ (k ≤ length s)%nat
           ∧ take (length sub) (drop k s) = sub
           ∧ ∀ j, (j < k)%nat → take (length sub) (drop j s) ≠ sub
  | None => ∀ k, (k ≤ length s)%nat → take (length sub) (drop k s) ≠ sub
  end.
Proof.
  revert i. induction s as [|c s IH]; intros i; cbn [Py.find_from].
  - destruct (Py.startswith [] sub) eqn:E.
    + apply startswith_spec in E. exists 0%nat.
      repeat split; [lia | simpl; lia | done | lia].
    + intros k Hk Hsub. replace k with 0%nat in Hsub by (simpl in Hk; lia).
      change (take (length sub) [] = sub) in Hsub.
      apply startswith_spec in Hsub. congruence.
  - destruct (Py.startswith (c :: s) sub) eqn:E.
    + apply startswith_spec in E. exists 0%nat.
      repeat split; [lia | simpl; lia | done | lia].
    + assert (take (length sub) (c :: s) ≠ sub) as Hhere.
      { intros Hsub. apply startswith_spec in Hsub. congruence. }
      specialize (IH (S i)). destruct (Py.find_from s sub (S i)) as [r|].
      * destruct IH as (k & -> & Hk & Hsub & Hmin). exists (S k).
        repeat split; [lia | simpl; lia | done |].
        intros [|j] Hj; [done|]. apply Hmin. lia.
      * intros [|k] Hk; [done|]. apply IH. simpl in Hk. lia.
Qed.

Lemma find_spec s sub start :
  0 ≤ start →
  (Py.find s sub start = -1 ∧ no_occ s sub start)
  ∨ (∃ i, Py.find s sub start = i ∧ first_occ s sub start i).
Proof.
  intros Hstart. unfold Py.find, Py.adjust.
  destruct (Z.ltb_spec start 0) as [?|_]; [lia|].
  destruct (Z.ltb_spec (Py.len s) start) as [Hgt|Hle].
  { left. split; [done|]. intros j Hj [Hr _]. lia. }
  pose proof (find_from_spec sub (drop (Z.to_nat start) s) (Z.to_nat start))
    as Hspec.
  unfold Py.len in Hle.
  destruct (Py.find_from _ sub _) as [r|].
  - right. destruct Hspec as (k & -> & Hk & Hsub & Hmin).
    rewrite length_drop in Hk. rewrite drop_drop in Hsub.
    eexists. split; [done|]. split; [lia|]. split.
    + split; [unfold Py.len; lia|]. by rewrite Nat2Z.id.
    + intros j Hj [_ Hocc].
      apply (Hmin (Z.to_nat j - Z.to_nat start)%nat); [lia|].
      rewrite drop_drop. rewrite <- Hocc at 2. do 2 f_equal. lia.
  - left. split; [done|]. intros j Hj [Hr Hocc].
    unfold Py.len in Hr.
    apply (Hspec (Z.to_nat j - Z.to_nat start)%nat).
    + rewrite length_drop. lia.
    + rewrite drop_drop. rewrite <- Hocc at 2. do 2 f_equal. lia.
Qed.

Lemma first_occ_unique s sub start i i' :
  first_occ s sub start i → first_occ s sub start i' → i = i'.
Proof.
  intros (Hge & Hocc & Hmin) (Hge' & Hocc' & Hmin').
  destruct (Z.lt_trichotomy i i') as [Hlt | [Heq | Hgt]]; [|done|].
  - destruct (Hmin' i); [lia | done].
  - destruct (Hmin i'); [lia | done].
Qed.

Lemma find_found s sub start i :
  0 ≤ start → first_occ s sub start i → Py.find s sub start = i.
Proof.
  intros Hstart Hi.
  destruct (find_spec s sub start Hstart) as [[_ Hno] | (i' & <- & Hi')].
  - destruct Hi as (Hge & Hocc & _). by destruct (Hno i).
  - by apply (first_occ_unique s sub start).
Qed.

Lemma find_found_inv s sub start i :
  0 ≤ start → Py.find s sub start = i → i ≠ -1 → first_occ s sub start i.
Proof.
  intros Hstart Hi Hne.
  destruct (find_spec s sub start Hstart) as [[Hr _] | (i' & Hr & Hi')];
    congruence.
Qed.

Lemma find_none s sub start :
  0 ≤ start → no_occ s sub start → Py.find s sub start = -1.
Proof.
  intros Hstart Hno.
  destruct (find_spec s sub start Hstart)
    as [[Hr _] | (i' & _ & Hge & Hocc & _)]; [done|]. by destruct (Hno i').
Qed.

Lemma find_none_inv s sub start :
  0 ≤ start → Py.find s sub start = -1 → no_occ s sub start.
Proof.
  intros Hstart Hr.
  destruct (find_spec s sub start Hstart)
    as [[_ Hno] | (i' & Hi' & Hge & _)]; [done | lia].
Qed.

Lemma slice_span s a b : 0 ≤ a → 0 ≤ b → Py.slice s a b = span s a b.
Proof.
  intros Ha Hb. unfold Py.slice, Py.adjust, span.
  destruct (Z.ltb_spec a 0) as [?|_]; [lia|].
  destruct (Z.ltb_spec b 0) as [?|_]; [lia|].
  unfold Py.len.
  destruct (Z.le_gt_cases a (Z.of_nat (length s))) as [Hale | Hagt].
  - rewrite (Z.min_l a) by done.
    destruct (Z.le_gt_cases b (Z.of_nat (length s))) as [Hble | Hbgt].
    + by rewrite (Z.min_l b).
    + rewrite (Z.min_r b) by lia.
      rewrite !take_ge; [done | rewrite length_drop; lia ..].
  - rewrite (Z.min_r a) by lia.
    rewrite !(drop_ge s) by lia. by rewrite !take_nil.
Qed.

(** ** The section locator *)

Lemma first_occ_nonneg s sub start i : first_occ s sub start i → 0 ≤ i.
Proof. intros (_ & [[? _] _] & _). done. Qed.

Lemma first_occ_ge s sub start i : first_occ s sub start i → start ≤ i.
Proof. by intros (? & _). Qed.

(** The sections cut out of a text with the given layout. *)
Lemma extract_code_sections_layout s p1 p2 e1 p3 p4 e2 :
  layout s p1 p2 e1 p3 p4 e2 →
  extract_code_sections s
  = Ok (Some (Py.strip (span s (p2 + 4) e1)),
        Some (Py.strip (span s (p4 + 4) e2))).
Proof.
  intros [H1 H2 H3 H4 H5 H6].
  pose proof (first_occ_nonneg _ _ _ _ H1) as N1.
  pose proof (first_occ_ge _ _ _ _ H2) as N2.
  pose proof (matching_ge _ _ _ H3) as N3.
  pose proof (first_occ_ge _ _ _ _ H4) as N4.
  pose proof (first_occ_ge _ _ _ _ H5) as N5.
  pose proof (matching_ge _ _ _ H6) as N6.
  unfold extract_code_sections. cbv zeta.
  change (Py.len (py "code")) with 4.
  rewrite (find_found _ _ _ _ (Z.le_refl 0) H1).
  destruct (Z.eqb_spec p1 (-1)); [lia|].
  rewrite (find_found _ _ _ p2 N1 H2).
  destruct (Z.eqb_spec p2 (-1)); [lia|].
  rewrite (find_matching_brace_found s (p2 + 4) ltac:(lia) e1 H3).
  cbn [mbind result_bind].
  destruct (Z.eqb_spec e1 (-1)); [lia|].
  rewrite (find_found _ _ _ p3) by (lia || done).
  destruct (Z.eqb_spec p3 (-1)); [lia|].
  rewrite (find_found _ _ _ p4) by (lia || done).
  destruct (Z.eqb_spec p4 (-1)); [lia|].
  rewrite (find_matching_brace_found s (p4 + 4) ltac:(lia) e2 H6).
  cbn [mbind result_bind].
  destruct (Z.eqb_spec e2 (-1)); [lia|].
  by rewrite !slice_span by lia.
Qed.

(** Every text either lacks one of the anchors or closing braces, and
    the locator answers [(None, None)], or has a layout. *)
Lemma extract_code_sections_cases s :
  (missing s ∧ extract_code_sections s = Ok (None, None))
  ∨ (∃ p1 p2 e1 p3 p4 e2, layout s p1 p2 e1 p3 p4 e2).
Proof.
  unfold extract_code_sections. cbv zeta.
  change (Py.len (py "code")) with 4.
  destruct (find_spec s anchor_creation 0) as [[-> Hno] | (p1 & E1 & H1)];
    [lia | left; split; [by apply missing_creation | done] |].
  rewrite E1. pose proof (first_occ_nonneg _ _ _ _ H1) as N1.
  destruct (Z.eqb_spec p1 (-1)); [lia|].
  destruct (find_spec s anchor_code p1) as [[-> Hno] | (p2 & E2 & H2)];
    [lia | left; split; [by eapply missing_creation_code | done] |].
  rewrite E2. pose proof (first_occ_ge _ _ _ _ H2) as N2.
  destruct (Z.eqb_spec p2 (-1)); [lia|].
  destruct (find_matching_brace_spec s (p2 + 4) ltac:(lia))
    as [[-> Hno] | (e1 & E3 & H3)];
    [left; split; [by eapply missing_creation_end | done] |].
  rewrite E3. cbn [mbind result_bind].
  pose proof (matching_ge _ _ _ H3) as N3.
  destruct (Z.eqb_spec e1 (-1)); [lia|].
  destruct (find_spec s anchor_runtime e1) as [[-> Hno] | (p3 & E4 & H4)];
    [lia | left; split; [by eapply missing_runtime | done] |].
  rewrite E4. pose proof (first_occ_ge _ _ _ _ H4) as N4.
  destruct (Z.eqb_spec p3 (-1)); [lia|].
  destruct (find_spec s anchor_code p3) as [[-> Hno] | (p4 & E5 & H5)];
    [lia | left; split; [by eapply missing_runtime_code | done] |].
  rewrite E5. pose proof (first_occ_ge _ _ _ _ H5) as N5.
  destruct (Z.eqb_spec p4 (-1)); [lia|].
  destruct (find_matching_brace_spec s (p4 + 4) ltac:(lia))
    as [[-> Hno] | (e2 & E6 & H6)];
    [left; split; [by eapply missing_runtime_end | done] |].
  right. exists p1, p2, e1, p3, p4, e2. by constructor.
Qed.

Lemma extract_code_sections_some_inv s c r :
  extract_code_sections s = Ok (Some c, Some r) →
  ∃ p1 p2 e1 p3 p4 e2,
    layout s p1 p2 e1 p3 p4 e2
    ∧ c = Py.strip (span s (p2 + 4) e1)
    ∧ r = Py.strip (span s (p4 + 4) e2).
Proof.
  intros Hex.
  destruct (extract_code_sections_cases s)
    as [[_ Hnone] | (p1 & p2 & e1 & p3 & p4 & e2 & Hlay)]; [congruence|].
  exists p1, p2, e1, p3, p4, e2. split; [done|].
  rewrite (extract_code_sections_layout _ _ _ _ _ _ _ Hlay) in Hex.
  by injection Hex as <- <-.
Qed.

(** The locator never raises, and never answers with exactly one
    section. *)
Lemma extract_code_sections_total s :
  extract_code_sections s = Ok (None, None)
  ∨ ∃ c r, extract_code_sections s = Ok (Some c, Some r).
Proof.
  destruct (extract_code_sections_cases s)
    as [[_ Hnone] | (p1 & p2 & e1 & p3 & p4 & e2 & Hlay)]; [by left|].
  right. rewrite (extract_code_sections_layout _ _ _ _ _ _ _ Hlay). eauto.
Qed.

(** A text with a layout lacks nothing. *)
Lemma layout_not_missing s p1 p2 e1 p3 p4 e2 :
  layout s p1 p2 e1 p3 p4 e2 → ¬ missing s.
Proof.
  intros [H1 H2 H3 H4 H5 H6] Hmiss.
  destruct Hmiss as [Hno | q1 G1 Hno | q1 q2 G1 G2 Hno
    | q1 q2 f1 G1 G2 G3 Hno | q1 q2 f1 q3 G1 G2 G3 G4 Hno
    | q1 q2 f1 q3 q4 G1 G2 G3 G4 G5 Hno].
  all: try (pose proof (first_occ_unique _ _ _ _ _ G1 H1); subst q1).
  all: try (pose proof (first_occ_unique _ _ _ _ _ G2 H2); subst q2).
  all: try (pose proof (matching_unique _ _ _ _ G3 H3); subst f1).
  all: try (pose proof (first_occ_unique _ _ _ _ _ G4 H4); subst q3).
  all: try (pose proof (first_occ_unique _ _ _ _ _ G5 H5); subst q4).
  - destruct H1 as (? & ? & _). by apply (Hno p1).
  - destruct H2 as (? & ? & _). by apply (Hno p2).
  - destruct H3 as [? _]. by apply (Hno e1).
  - destruct H4 as (? & ? & _). by apply (Hno p3).
  - destruct H5 as (? & ? & _). by apply (Hno p4).
  - destruct H6 as [? _]. by apply (Hno e2).
Qed.

Lemma extract_code_sections_missing s :
  missing s → extract_code_sections s = Ok (None, None).
Proof.
  intros Hmiss.
  destruct (extract_code_sections_cases s)
    as [[_ Hnone] | (p1 & p2 & e1 & p3 & p4 & e2 & Hlay)]; [done|].
  by destruct (layout_not_missing _ _ _ _ _ _ _ Hlay).
Qed.

(** ** Stripping *)

Lemma count_lstrip c s :
  Py.isspace c = false → count c (Py.lstrip s) = count c s.
Proof.
  intros Hc. induction s as [|d s IH]; [done|].
  cbn [Py.lstrip]. destruct (Py.isspace d) eqn:Hd; [|done].
  rewrite IH. cbn [count].
  destruct (N.eqb_spec d c) as [-> | _]; [congruence | lia].
Qed.

Lemma count_strip c s :
  Py.isspace c = false → count c (Py.strip s) = count c s.
Proof.
  intros Hc. unfold Py.strip, Py.rstrip.
  by rewrite count_rev, count_lstrip, count_rev, count_lstrip.
Qed.

Lemma lstrip_snoc_nonspace s c :
  Py.isspace c = false → Py.lstrip (s ++ [c]) = Py.lstrip s ++ [c].
Proof.
  intros Hc. induction s as [|d s IH]; cbn [Py.lstrip app].
  - by rewrite Hc.
  - by destruct (Py.isspace d).
Qed.

Lemma rstrip_cons_nonspace c s :
  Py.isspace c = false → Py.rstrip (c :: s) = c :: Py.rstrip s.
Proof.
  intros Hc. unfold Py.rstrip. cbn [rev].
  rewrite lstrip_snoc_nonspace by done. by rewrite rev_app_distr.
Qed.

(** ** Occurrences *)

Lemma occurs_at_lookup s sub i (k : nat) c :
  occurs_at s sub i → sub !! k = Some c →
  s !! Z.to_nat (i + Z.of_nat k) = Some c.
Proof.
  intros [Hi Hocc] Hk. rewrite <- Hocc in Hk.
  apply lookup_take_Some in Hk as [Hk _]. rewrite lookup_drop in Hk.
  rewrite <- Hk. f_equal. lia.
Qed.

(** ** Safety of the scan *)

Lemma getitem_in_range text i :
  - Py.len text ≤ i < Py.len text → ∃ c, Py.getitem text i = Ok c.
Proof.
  intros Hi. unfold Py.getitem.
  set (j := if i <? 0 then i + Py.len text else i).
  assert (0 ≤ j < Py.len text) as Hj.
  { subst j. destruct (Z.ltb_spec i 0); lia. }
  destruct (Z.ltb_spec j 0); [lia|].
  destruct (Z.leb_spec (Py.len text) j); [lia|]. simpl.
  destruct (lookup_in_range text j Hj) as [c ->]. eauto.
Qed.

Lemma getitem_below text i :
  i < - Py.len text → Py.getitem text i = Raise IndexError.
Proof.
  intros Hi. unfold Py.getitem.
  destruct (Z.ltb_spec i 0); [|unfold Py.len in *; lia].
  destruct (Z.ltb_spec (i + Py.len text) 0); [done | lia].
Qed.

Lemma elem_of_range a b p : p ∈ Py.range a b ↔ a ≤ p < b.
Proof.
  unfold Py.range. rewrite list_elem_of_fmap. split.
  - intros (k & -> & Hk). apply elem_of_seq in Hk. lia.
  - intros Hp. exists (Z.to_nat (p - a)). split; [lia|].
    apply elem_of_seq. lia.
Qed.

Lemma find_matching_brace_loop_safe text positions d :
  (∀ p, p ∈ positions → - Py.len text ≤ p < Py.len text) →
  ∃ r, find_matching_brace_loop text positions d = Ok r
       ∧ (r = -1 ∨ r ∈ positions).
Proof.
  revert d. induction positions as [|pos rest IH]; intros d Hin.
  - exists (-1). by split; [|left].
  - cbn [find_matching_brace_loop].
    destruct (getitem_in_range text pos) as [c ->]; [apply Hin; left|].
    cbn [mbind result_bind].
    assert (∀ d', ∃ r, find_matching_brace_loop text rest d' = Ok r
                       ∧ (r = -1 ∨ r ∈ pos :: rest)) as Hrest.
    { intros d'. destruct (IH d') as (r & Hr & Hcase).
      - intros p Hp. apply Hin. by right.
      - exists r. split; [done|]. destruct Hcase; [by left|].
        right. by right. }
    destruct (c =? lbrace)%N; [apply Hrest|].
    destruct (c =? rbrace)%N; [|apply Hrest]. cbn zeta.
    destruct (d - 1 =? 0); [|apply Hrest].
    exists pos. split; [done|]. right. left.
Qed.

(** ** Shape of a section *)

(** The block after [code {]: matching starts on the space that follows
    the keyword, the opening brace is the next character, and the
    section keeps it. *)
Lemma code_block_section s start p e :
  first_occ s anchor_code start p → matching s (p + 4) e →
  s !! Z.to_nat (p + 5) = Some lbrace
  ∧ matching s (p + 5) e
  ∧ p + 5 < e
  ∧ Py.strip (span s (p + 4) e) = lbrace :: Py.rstrip (span s (p + 5 + 1) e).
Proof.
  intros (_ & Hocc & _) Hm.
  pose proof Hocc as [[Hp _] _].
  pose proof (occurs_at_lookup s anchor_code p 4 32%N Hocc eq_refl) as Hsp.
  pose proof (occurs_at_lookup s anchor_code p 5 lbrace Hocc eq_refl) as Hlb.
  change (Z.of_nat 4) with 4 in Hsp. change (Z.of_nat 5) with 5 in Hlb.
  apply (matching_skip s (p + 4) ltac:(lia) e 32%N) in Hm; [|done..].
  replace (p + 4 + 1) with (p + 5) in Hm by lia.
  assert (p + 5 < e) as Hlt.
  { destruct Hm as [(Hle & He & _) _].
    destruct (Z.eq_dec e (p + 5)) as [-> | ?]; [|lia].
    rewrite Hlb in He. discriminate He. }
  split; [done|]. split; [done|]. split; [done|].
  rewrite (span_cons s (p + 4) e 32%N) by (done || lia).
  replace (p + 4 + 1) with (p + 5) by lia.
  rewrite (span_cons s (p + 5) e lbrace) by (done || lia).
  unfold Py.strip.
  change (Py.lstrip (32%N :: lbrace :: ?l)) with (lbrace :: l).
  by apply rstrip_cons_nonspace.
Qed.

(** A section cut before the match of its block holds one more opening
    than closing brace. *)
Lemma count_section s start e :
  0 ≤ start → matching s start e →
  count lbrace (Py.strip (span s start e))
  = count rbrace (Py.strip (span s start e)) + 1.
Proof.
  intros Hstart Hm. rewrite !count_strip by done.
  pose proof (matching_depth_before s start Hstart e Hm) as Hd.
  unfold depth in Hd. lia.
Qed.

(** ** The output formatter *)

Lemma split_yul_code_success input_filename output_filename1
    output_filename2 w yul_code c r :
  files w !! input_filename = Some yul_code →
  extract_code_sections yul_code = Ok (Some c, Some r) →
  split_yul_code input_filename output_filename1 output_filename2 w
  = Ok (World
          (<[output_filename2 := output_code2 r ++ closing]>
             (<[output_filename1 := output_code1 c ++ closing]> (files w)))
          (stdout w ++ [msg_written output_filename1 output_filename2])).
Proof.
  intros Hin Hex. unfold split_yul_code, read_file. rewrite Hin.
  cbn [mbind result_bind]. rewrite Hex. by cbn [mbind result_bind].
Qed.

Lemma split_yul_code_failure input_filename output_filename1
    output_filename2 w yul_code :
  files w !! input_filename = Some yul_code →
  extract_code_sections yul_code = Ok (None, None) →
  split_yul_code input_filename output_filename1 output_filename2 w
  = Ok (World (files w) (stdout w ++ [msg_mismatch])).
Proof.
  intros Hin Hex. unfold split_yul_code, read_file. rewrite Hin.
  cbn [mbind result_bind]. rewrite Hex. by cbn [mbind result_bind].
Qed.

Lemma count_output_code1 x c :
  count x (output_code1 c ++ closing)
  = count x (output_code1 [] ++ closing) + count x c.
Proof. unfold output_code1. rewrite !count_app. simpl. lia. Qed.

Lemma count_output_code2 x r :
  count x (output_code2 r ++ closing)
  = count x (output_code2 [] ++ closing) + count x r.
Proof. unfold output_code2. rewrite !count_app. simpl. lia. Qed.

Lemma extract_code_sections_sample :
  extract_code_sections sample
  = Ok (Some (py "{ MSTORE(0,1)"), Some (py "{ RETURN(0,0)")).
Proof. vm_compute. reflexivity. Qed.

Lemma split_yul_code_inv input_filename output_filename1
    output_filename2 w w' :
  split_yul_code input_filename output_filename1 output_filename2 w = Ok w' →
  ∃ yul_code,
    files w !! input_filename = Some yul_code
    ∧ ((extract_code_sections yul_code = Ok (None, None)
        ∧ w' = World (files w) (stdout w ++ [msg_mismatch]))
       ∨ (∃ c r,
            extract_code_sections yul_code = Ok (Some c, Some r)
            ∧ w' = World
                     (<[output_filename2 := output_code2 r ++ closing]>
                        (<[output_filename1 := output_code1 c ++ closing]>
                           (files w)))
                     (stdout w
                      ++ [msg_written output_filename1 output_filename2]))).
Proof.
  intros Hrun.
  destruct (files w !! input_filename) as [yul_code|] eqn:Hin.
  - exists yul_code. split; [done|].
    destruct (extract_code_sections_total yul_code) as [Hn | (c & r & Hs)].
    + left. split; [done|].
      rewrite (split_yul_code_failure _ _ _ _ _ Hin Hn) in Hrun.
      by injection Hrun as <-.
    + right. exists c, r. split; [done|].
      rewrite (split_yul_code_success _ _ _ _ _ _ _ Hin Hs) in Hrun.
      by injection Hrun as <-.
  - unfold split_yul_code, read_file in Hrun. rewrite Hin in Hrun.
    discriminate Hrun.
Qed.

(** Writing the same two files again changes nothing. *)
Lemma rewrite_outputs (m : gmap str str) o1 o2 a b :
  <[o2 := b]> (<[o1 := a]> (<[o2 := b]> (<[o1 := a]> m)))
  = <[o2 := b]> (<[o1 := a]> m).
Proof.
  apply map_eq. intros k. rewrite !lookup_insert.
  repeat case_decide; done.
Qed.

(** * Properties of the extractor *)

(** C1. When [start_pos] is the offset of an opening brace,
    [find_matching_brace] returns exactly the first closing brace at
    which the depth counter, started at zero on the opening brace,
    comes back to zero: it returns that offset whenever there is one,
    anything it returns other than the sentinel is that offset, and at
    every earlier offset of the block the depth is still at least one,
    so a closing brace of an inner block is never the answer. *)
Theorem find_matching_brace_correct text start_pos :
  0 ≤ start_pos → text !! Z.to_nat start_pos = Some lbrace →
  (∀ e, matching text start_pos e →
        find_matching_brace text start_pos = Ok e)
  ∧ (∀ e, find_matching_brace text start_pos = Ok e → e ≠ -1 →
          matching text start_pos e
          ∧ ∀ q, start_pos ≤ q < e →
                 1 ≤ depth (span text start_pos (q + 1))).
Proof.
  intros Hstart Hopen. split.
  - intros e. by apply find_matching_brace_found.
  - intros e He Hne.
    pose proof (find_matching_brace_found_inv _ _ Hstart _ He Hne) as Hm.
    split; [done|]. by apply matching_depth_pos.
Qed.

(** In [code { if eq(x,1) { sstore(0,1) } }] the brace opened at offset
    5 is closed at offset 34, not at the inner closing brace at 32. *)
Lemma find_matching_brace_correct_witness :
  find_matching_brace nested 5 = Ok 34
  ∧ nested !! 32%nat = Some rbrace
  ∧ matching nested 5 34
  ∧ 1 ≤ depth (span nested 5 (32 + 1)).
Proof.
  assert (0 ≤ 5) as H0 by lia.
  assert (nested !! Z.to_nat 5 = Some lbrace) as Hopen by reflexivity.
  assert (find_matching_brace nested 5 = Ok 34) as Hrun by reflexivity.
  assert (34 ≠ -1) as Hne by lia.
  destruct (find_matching_brace_correct nested 5 H0 Hopen) as [_ Hinv].
  destruct (Hinv 34 Hrun Hne) as [Hm Hpos].
  split; [exact Hrun|]. split; [reflexivity|]. split; [exact Hm|].
  apply Hpos. lia.
Defined.

(** C5. When no closing brace at or after [start_pos] brings the depth
    counted from [start_pos] back to zero, [find_matching_brace] returns
    the sentinel [-1]. The function is pure: its result depends on its
    two arguments only and it has no state to mutate. *)
Theorem find_matching_brace_no_match text start_pos :
  0 ≤ start_pos → (∀ e, ¬ closes text start_pos e) →
  find_matching_brace text start_pos = Ok (-1).
Proof. apply find_matching_brace_none. Qed.

Lemma find_matching_brace_no_match_witness :
  find_matching_brace truncated 30 = Ok (-1).
Proof.
  apply find_matching_brace_no_match; [lia|].
  apply find_matching_brace_none_inv; [lia | reflexivity].
Defined.

(** C10, as stated, fails: on the empty text with [start_pos = -1] the
    loop runs once, at position [-1], and indexing raises. *)
Lemma find_matching_brace_negative_start_raises :
  find_matching_brace [] (-1) = Raise IndexError.
Proof. reflexivity. Qed.

(** C10, amended. For every text and every [start_pos >= -len(text)],
    including [start_pos >= len(text)] and the empty text,
    [find_matching_brace] returns [-1] or a position of the scanned
    range, [start_pos <= r < len(text)], every access being in range;
    below [-len(text)] it raises [IndexError]. On every text
    [extract_code_sections] returns [(None, None)] or a pair of two
    strings and raises nothing. *)
Theorem find_matching_brace_safe text start_pos yul_code :
  (- Py.len text ≤ start_pos →
   ∃ r, find_matching_brace text start_pos = Ok r
        ∧ (r = -1 ∨ start_pos ≤ r < Py.len text))
  ∧ (start_pos < - Py.len text →
     find_matching_brace text start_pos = Raise IndexError)
  ∧ (extract_code_sections yul_code = Ok (None, None)
     ∨ ∃ c r, extract_code_sections yul_code = Ok (Some c, Some r)).
Proof.
  split; [|split].
  - intros Hstart. unfold find_matching_brace.
    destruct (find_matching_brace_loop_safe text
                (Py.range start_pos (Py.len text)) 0) as (r & Hr & Hcase).
    + intros p Hp. apply elem_of_range in Hp. lia.
    + exists r. split; [done|]. destruct Hcase as [?|Hin]; [by left|].
      right. by apply elem_of_range.
  - intros Hstart. unfold find_matching_brace.
    rewrite range_cons by (unfold Py.len in *; lia).
    cbn [find_matching_brace_loop]. by rewrite getitem_below.
  - apply extract_code_sections_total.
Qed.

(** The empty text from offset 0, a start beyond the end of the text,
    and a negative start that still indexes the text. *)
Lemma find_matching_brace_safe_witness :
  find_matching_brace [] 0 = Ok (-1)
  ∧ find_matching_brace (py "{}") 7 = Ok (-1)
  ∧ (∃ r, find_matching_brace (py "{}x") (-3) = Ok r
          ∧ (r = -1 ∨ -3 ≤ r < 3))
  ∧ find_matching_brace (py "{}x") (-4) = Raise IndexError.
Proof.
  split; [reflexivity|]. split; [reflexivity|]. split.
  - apply (proj1 (find_matching_brace_safe (py "{}x") (-3) [])).
    unfold Py.len. simpl. lia.
  - apply (proj1 (proj2 (find_matching_brace_safe (py "{}x") (-4) []))).
    unfold Py.len. simpl. lia.
Defined.

(** C3. When one of the four anchors or one of the two matching closing
    braces is absent, [extract_code_sections] returns [(None, None)];
    and whatever pair it returns, either both components are strings or
    neither is. *)
Theorem extract_code_sections_all_or_nothing yul_code :
  (missing yul_code → extract_code_sections yul_code = Ok (None, None))
  ∧ (∀ a b, extract_code_sections yul_code = Ok (a, b) →
            (a = None ∧ b = None) ∨ (is_Some a ∧ is_Some b)).
Proof.
  split; [apply extract_code_sections_missing|].
  intros a b Hab.
  destruct (extract_code_sections_total yul_code) as [Hn | (c & r & Hs)];
    rewrite Hab in *.
  - left. by injection Hn as -> ->.
  - right. injection Hs as -> ->. eauto.
Qed.

(** The first anchor and its [code {] are there, the block is never
    closed. *)
Lemma extract_code_sections_all_or_nothing_witness :
  missing truncated ∧ extract_code_sections truncated = Ok (None, None).
Proof.
  assert (missing truncated) as Hmiss.
  { apply (missing_creation_end truncated 0 26).
    - apply find_found_inv; [lia | reflexivity | lia].
    - apply find_found_inv; [lia | reflexivity | lia].
    - apply find_matching_brace_none_inv; [lia | reflexivity]. }
  split; [exact Hmiss|].
  exact (proj1 (extract_code_sections_all_or_nothing truncated) Hmiss).
Defined.

(** C4. When extraction fails on the content of the input file,
    [split_yul_code] prints the diagnostic line and returns: the file
    system is left as it was, so neither output file is created or
    modified. *)
Theorem split_yul_code_mismatch input_filename output_filename1
    output_filename2 w yul_code :
  files w !! input_filename = Some yul_code →
  extract_code_sections yul_code = Ok (None, None) →
  ∃ w', split_yul_code input_filename output_filename1 output_filename2 w
        = Ok w'
        ∧ files w' = files w
        ∧ stdout w' = stdout w ++ [msg_mismatch].
Proof.
  intros Hin Hex. unfold split_yul_code, read_file. rewrite Hin.
  cbn [mbind result_bind]. rewrite Hex. cbn [mbind result_bind].
  by eexists.
Qed.

(** An input that lacks the first anchor. *)
Lemma split_yul_code_mismatch_witness :
  ∃ w', split_yul_code (py "in.yul") (py "a.yul") (py "b.yul")
          (disk (py "code { }")) = Ok w'
        ∧ files w' = files (disk (py "code { }"))
        ∧ stdout w' = stdout (disk (py "code { }")) ++ [msg_mismatch].
Proof.
  apply (split_yul_code_mismatch (py "in.yul") (py "a.yul") (py "b.yul")
           (disk (py "code { }")) (py "code { }")).
  - apply lookup_singleton_eq.
  - reflexivity.
Defined.




(** C6. When extraction succeeds, the second anchor is looked for from
    the closing brace [e1] of the creation block onwards: the occurrence
    [p3] it selects is the first one at or after [e1], the runtime
    section is cut from the block that follows it, and no occurrence of
    the anchor text before [e1], such as one nested in the creation
    block, is selected. *)
Theorem runtime_anchor_after_creation yul_code c r :
  extract_code_sections yul_code = Ok (Some c, Some r) →
  ∃ p1 p2 e1 p3 p4 e2,
    layout yul_code p1 p2 e1 p3 p4 e2
    ∧ e1 ≤ p3
    ∧ r = Py.strip (span yul_code (p4 + 4) e2)
    ∧ ∀ i, occurs_at yul_code anchor_runtime i → i < e1 → i ≠ p3.
Proof.
  intros Hex.
  destruct (extract_code_sections_some_inv _ _ _ Hex)
    as (p1 & p2 & e1 & p3 & p4 & e2 & Hlay & -> & ->).
  exists p1, p2, e1, p3, p4, e2.
  pose proof (first_occ_ge _ _ _ _ (lay_runtime _ _ _ _ _ _ _ Hlay)) as Hge.
  split; [done|]. split; [done|]. split; [done|].
  intros i _ Hi. lia.
Qed.

(** The text of the second anchor occurs at offset 33, inside the
    creation block; the runtime section is the one of the later
    occurrence. *)
Lemma runtime_anchor_after_creation_witness :
  occurs_at shadowed anchor_runtime 33
  ∧ extract_code_sections shadowed
    = Ok (Some (py "{ " ++ anchor_runtime ++ py " code { A } }"),
          Some (py "{ B"))
  ∧ ∃ p1 p2 e1 p3 p4 e2,
      layout shadowed p1 p2 e1 p3 p4 e2
      ∧ e1 ≤ p3
      ∧ py "{ B" = Py.strip (span shadowed (p4 + 4) e2)
      ∧ ∀ i, occurs_at shadowed anchor_runtime i → i < e1 → i ≠ p3.
Proof.
  assert (extract_code_sections shadowed
          = Ok (Some (py "{ " ++ anchor_runtime ++ py " code { A } }"),
                Some (py "{ B"))) as Hrun by reflexivity.
  split; [split; [vm_compute; split; discriminate | reflexivity]|].
  split; [exact Hrun|].
  exact (runtime_anchor_after_creation shadowed _ _ Hrun).
Defined.

(** C7, as stated, fails: the spec's two-object input is well formed
    and its creation section is not balanced. *)
Lemma extract_code_sections_sample_unbalanced :
  well_formed sample
  ∧ ∃ c r, extract_code_sections sample = Ok (Some c, Some r)
           ∧ count lbrace c ≠ count rbrace c.
Proof.
  split.
  - destruct (extract_code_sections_some_inv _ _ _
                extract_code_sections_sample)
      as (p1 & p2 & e1 & p3 & p4 & e2 & Hlay & _).
    by exists p1, p2, e1, p3, p4, e2.
  - eexists _, _. split; [apply extract_code_sections_sample|].
    vm_compute. discriminate.
Qed.

(** C7, amended. On every well-formed input [extract_code_sections]
    returns two non-empty strings, and each of them holds exactly one
    more opening brace than closing braces: the opening brace of its
    own block, whose closing brace is left out. *)
Theorem extract_code_sections_brace_counts yul_code :
  well_formed yul_code →
  ∃ c r,
    extract_code_sections yul_code = Ok (Some c, Some r)
    ∧ c ≠ [] ∧ r ≠ []
    ∧ count lbrace c = count rbrace c + 1
    ∧ count lbrace r = count rbrace r + 1.
Proof.
  intros (p1 & p2 & e1 & p3 & p4 & e2 & Hlay).
  rewrite (extract_code_sections_layout _ _ _ _ _ _ _ Hlay).
  destruct Hlay as [H1 H2 H3 H4 H5 H6].
  pose proof (first_occ_nonneg _ _ _ _ H2) as N2.
  pose proof (first_occ_nonneg _ _ _ _ H5) as N5.
  destruct (code_block_section _ _ _ _ H2 H3) as (_ & _ & _ & Hc).
  destruct (code_block_section _ _ _ _ H5 H6) as (_ & _ & _ & Hr).
  eexists _, _. split; [done|].
  split; [by rewrite Hc|]. split; [by rewrite Hr|].
  split; apply count_section; (lia || done).
Qed.

Lemma extract_code_sections_brace_counts_witness :
  ∃ c r,
    extract_code_sections sample = Ok (Some c, Some r)
    ∧ c ≠ [] ∧ r ≠ []
    ∧ count lbrace c = count rbrace c + 1
    ∧ count lbrace r = count rbrace r + 1.
Proof.
  apply extract_code_sections_brace_counts.
  destruct (extract_code_sections_some_inv _ _ _
              extract_code_sections_sample)
    as (p1 & p2 & e1 & p3 & p4 & e2 & Hlay & _).
  by exists p1, p2, e1, p3, p4, e2.
Defined.

(** C8, as stated, fails: on the spec's two-object input the first
    output file does not hold one more closing than opening brace. *)
Lemma split_yul_code_sample_not_unbalanced :
  ∃ w' content,
    split_yul_code (py "in.yul") (py "a.yul") (py "b.yul") (disk sample)
    = Ok w'
    ∧ files w' !! py "a.yul" = Some content
    ∧ count rbrace content ≠ count lbrace content + 1.
Proof.
  eexists _, _. split; [|split].
  - apply (split_yul_code_success _ _ _ _ sample);
      [apply lookup_singleton_eq | apply extract_code_sections_sample].
  - cbn [files]. rewrite lookup_insert_ne by (intros H; discriminate H).
    apply lookup_insert_eq.
  - vm_compute. discriminate.
Qed.

(** C8, amended. When extraction succeeds, the first output file is
    written with the creation section wrapped in its object and code
    syntax, then the second one with the runtime section wrapped
    likewise, each followed by a line feed and a closing brace, which
    is the last character of the file. That closing brace pairs with
    the opening brace kept at the head of the section: each content
    holds as many opening as closing braces. *)
Theorem split_yul_code_outputs input_filename output_filename1
    output_filename2 w yul_code c r :
  files w !! input_filename = Some yul_code →
  extract_code_sections yul_code = Ok (Some c, Some r) →
  ∃ w',
    split_yul_code input_filename output_filename1 output_filename2 w
    = Ok w'
    ∧ files w'
      = <[output_filename2 := output_code2 r ++ [newline; rbrace]]>
          (<[output_filename1 := output_code1 c ++ [newline; rbrace]]>
             (files w))
    ∧ count lbrace (output_code1 c ++ [newline; rbrace])
      = count rbrace (output_code1 c ++ [newline; rbrace])
    ∧ count lbrace (output_code2 r ++ [newline; rbrace])
      = count rbrace (output_code2 r ++ [newline; rbrace]).
Proof.
  intros Hin Hex.
  rewrite (split_yul_code_success _ _ _ _ _ _ _ Hin Hex).
  eexists. split; [done|]. split; [done|].
  destruct (extract_code_sections_some_inv _ _ _ Hex)
    as (p1 & p2 & e1 & p3 & p4 & e2 & [H1 H2 H3 H4 H5 H6] & -> & ->).
  pose proof (first_occ_nonneg _ _ _ _ H2) as N2.
  pose proof (first_occ_nonneg _ _ _ _ H5) as N5.
  pose proof (count_section yul_code (p2 + 4) e1 ltac:(lia) H3) as Hc.
  pose proof (count_section yul_code (p4 + 4) e2 ltac:(lia) H6) as Hr.
  fold closing.
  rewrite (count_output_code1 lbrace), (count_output_code1 rbrace).
  rewrite (count_output_code2 lbrace), (count_output_code2 rbrace).
  change (count lbrace (output_code1 [] ++ closing)) with 2.
  change (count rbrace (output_code1 [] ++ closing)) with 3.
  change (count lbrace (output_code2 [] ++ closing)) with 2.
  change (count rbrace (output_code2 [] ++ closing)) with 3.
  lia.
Qed.

Lemma split_yul_code_outputs_witness :
  ∃ w',
    split_yul_code (py "in.yul") (py "a.yul") (py "b.yul") (disk sample)
    = Ok w'
    ∧ files w'
      = <[py "b.yul"
          := output_code2 (py "{ RETURN(0,0)") ++ [newline; rbrace]]>
          (<[py "a.yul"
             := output_code1 (py "{ MSTORE(0,1)") ++ [newline; rbrace]]>
             (files (disk sample)))
    ∧ count lbrace (output_code1 (py "{ MSTORE(0,1)") ++ [newline; rbrace])
      = count rbrace (output_code1 (py "{ MSTORE(0,1)") ++ [newline; rbrace])
    ∧ count lbrace (output_code2 (py "{ RETURN(0,0)") ++ [newline; rbrace])
      = count rbrace (output_code2 (py "{ RETURN(0,0)") ++ [newline; rbrace]).
Proof.
  apply (split_yul_code_outputs _ _ _ _ sample).
  - apply lookup_singleton_eq.
  - exact extract_code_sections_sample.
Defined.

(** C9. The extractor is a function of its input text: equal texts give
    equal pairs. Two runs of [split_yul_code] that read the same content
    print the same line and either both write nothing or both write the
    same two contents to the two output paths. When the input path is
    not one of the output paths, running again on the file system left
    by a run leaves every file as it is. *)
Theorem split_yul_code_deterministic input_filename output_filename1
    output_filename2 :
  (∀ s1 s2, s1 = s2 → extract_code_sections s1 = extract_code_sections s2)
  ∧ (∀ w1 w2 w1',
       files w1 !! input_filename = files w2 !! input_filename →
       split_yul_code input_filename output_filename1 output_filename2 w1
       = Ok w1' →
       ∃ w2' line,
         split_yul_code input_filename output_filename1 output_filename2 w2
         = Ok w2'
         ∧ stdout w1' = stdout w1 ++ [line]
         ∧ stdout w2' = stdout w2 ++ [line]
         ∧ ((files w1' = files w1 ∧ files w2' = files w2)
            ∨ ∃ a b,
                files w1'
                = <[output_filename2 := b]>
                    (<[output_filename1 := a]> (files w1))
                ∧ files w2'
                  = <[output_filename2 := b]>
                      (<[output_filename1 := a]> (files w2))))
  ∧ (∀ w w',
       input_filename ≠ output_filename1 →
       input_filename ≠ output_filename2 →
       split_yul_code input_filename output_filename1 output_filename2 w
       = Ok w' →
       ∃ w'',
         split_yul_code input_filename output_filename1 output_filename2 w'
         = Ok w''
         ∧ files w'' = files w').
Proof.
  split; [by intros s1 s2 ->|]. split.
  - intros w1 w2 w1' Hsame Hrun.
    destruct (split_yul_code_inv _ _ _ _ _ Hrun)
      as (yul_code & Hin & [[Hex ->] | (c & r & Hex & ->)]);
      rewrite Hin in Hsame; symmetry in Hsame.
    + rewrite (split_yul_code_failure _ _ _ _ _ Hsame Hex).
      eexists _, _. split; [done|]. split; [done|]. split; [done|].
      by left.
    + rewrite (split_yul_code_success _ _ _ _ _ _ _ Hsame Hex).
      eexists _, _. split; [done|]. split; [done|]. split; [done|].
      right. by eexists _, _.
  - intros w w' Hne1 Hne2 Hrun.
    destruct (split_yul_code_inv _ _ _ _ _ Hrun)
      as (yul_code & Hin & [[Hex ->] | (c & r & Hex & ->)]).
    + rewrite (split_yul_code_failure _ _ _ _ yul_code); by eauto.
    + rewrite (split_yul_code_success _ _ _ _ yul_code c r); [| |done].
      * eexists. split; [done|]. cbn [files]. apply rewrite_outputs.
      * cbn [files]. by rewrite !lookup_insert_ne.
Qed.

(** Two runs on the spec's two-object input, the second on the file
    system left by the first. *)
Lemma split_yul_code_deterministic_witness :
  ∃ w' w'',
    split_yul_code (py "in.yul") (py "a.yul") (py "b.yul") (disk sample)
    = Ok w'
    ∧ split_yul_code (py "in.yul") (py "a.yul") (py "b.yul") w' = Ok w''
    ∧ files w'' = files w'.
Proof.
  assert (py "in.yul" ≠ py "a.yul") as Hne1 by (intros H; discriminate H).
  assert (py "in.yul" ≠ py "b.yul") as Hne2 by (intros H; discriminate H).
  pose proof (split_yul_code_success (py "in.yul") (py "a.yul") (py "b.yul")
                (disk sample) sample _ _
                (lookup_singleton_eq _ _) extract_code_sections_sample)
    as Hrun.
  destruct (split_yul_code_deterministic (py "in.yul") (py "a.yul")
              (py "b.yul")) as (_ & _ & Hagain).
  destruct (Hagain _ _ Hne1 Hne2 Hrun) as (w'' & Hrun' & Hfiles).
  eexists _, w''. split; [exact Hrun|]. split; [exact Hrun'|exact Hfiles].
Defined.

(** * Further properties *)

(** ** The scan as a function of the characters read *)

Lemma scan_lt cs d k : scan cs d = Some k → (k < length cs)%nat.
Proof.
  revert d k. induction cs as [|c cs IH]; intros d k; cbn [scan]; [done|].
  assert (∀ d', S <$> scan cs d' = Some k → (k < length (c :: cs))%nat)
    as Hrec.
  { intros d' H. destruct (scan cs d') as [j|] eqn:E; [|done].
    injection H as <-. apply IH in E. simpl. lia. }
  destruct (c =? lbrace)%N; [apply Hrec|].
  destruct (c =? rbrace)%N; [|apply Hrec].
  destruct (d - 1 =? 0); [|apply Hrec].
  intros [= <-]. simpl. lia.
Qed.

Lemma scan_app_Some cs more d k :
  scan cs d = Some k → scan (cs ++ more) d = Some k.
Proof.
  revert d k. induction cs as [|c cs IH]; intros d k; cbn [scan app]; [done|].
  assert (∀ d', S <$> scan cs d' = Some k →
                S <$> scan (cs ++ more) d' = Some k) as Hrec.
  { intros d' H. destruct (scan cs d') as [j|] eqn:E; [|done].
    by rewrite (IH _ _ E). }
  destruct (c =? lbrace)%N; [apply Hrec|].
  destruct (c =? rbrace)%N; [|apply Hrec].
  destruct (d - 1 =? 0); [done | apply Hrec].
Qed.

(** The loop reports the position at which the scan of the characters
    it reads stops. *)
Lemma find_matching_brace_loop_scan text ps cs d :
  Forall2 (λ p c, Py.getitem text p = Ok c) ps cs →
  find_matching_brace_loop text ps d
  = Ok (match scan cs d with
        | Some k => default (-1) (ps !! k)
        | None => -1
        end).
Proof.
  intros Hread. revert d.
  induction Hread as [|p c ps cs Hp Hread IH]; intros d; [done|].
  cbn [find_matching_brace_loop scan]. rewrite Hp. cbn [mbind result_bind].
  assert (∀ d', find_matching_brace_loop text ps d'
                = Ok (match S <$> scan cs d' with
                      | Some k => default (-1) ((p :: ps) !! k)
                      | None => -1
                      end)) as Hrec.
  { intros d'. rewrite IH. by destruct (scan cs d'). }
  destruct (c =? lbrace)%N; [apply Hrec|].
  destruct (c =? rbrace)%N; [|apply Hrec]. cbn zeta.
  destruct (d - 1 =? 0); [done | apply Hrec].
Qed.

Lemma length_range a b : length (Py.range a b) = Z.to_nat (b - a).
Proof. unfold Py.range. by rewrite length_map, length_seq. Qed.

Lemma lookup_range a b (k : nat) :
  (k < Z.to_nat (b - a))%nat → Py.range a b !! k = Some (a + Z.of_nat k).
Proof.
  intros Hk. unfold Py.range. rewrite list_lookup_fmap.
  by rewrite lookup_seq_lt.
Qed.

Lemma find_matching_brace_scan text start :
  0 ≤ start →
  find_matching_brace text start
  = Ok (reported start (scan (drop (Z.to_nat start) text) 0)).
Proof.
  intros Hstart. unfold find_matching_brace.
  rewrite (find_matching_brace_loop_scan _ _ (drop (Z.to_nat start) text)).
  - destruct (scan _ 0) as [k|] eqn:E; [|done].
    apply scan_lt in E. rewrite length_drop in E.
    rewrite lookup_range by (unfold Py.len; lia). done.
  - apply Forall2_same_length_lookup_2.
    + rewrite length_range, length_drop. unfold Py.len. lia.
    + intros i p c Hp Hc.
      pose proof (lookup_lt_Some _ _ _ Hp) as Hi.
      rewrite length_range in Hi. rewrite lookup_range in Hp by done.
      injection Hp as <-. rewrite lookup_drop in Hc.
      apply getitem_ok; [lia|]. rewrite <- Hc. f_equal. lia.
Qed.


(** The depth counted from an opening brace stays positive as long as no
    closing brace has brought it back to zero. *)
Lemma depth_pos_until text start bound :
  0 ≤ start → text !! Z.to_nat start = Some lbrace →
  bound ≤ Py.len text →
  (∀ q, q < bound → ¬ closes text start q) →
  ∀ q, start ≤ q < bound → 1 ≤ depth (span text start (q + 1)).
Proof.
  intros Hstart Hopen Hlen Hmin.
  assert (∀ n : nat, start + Z.of_nat n < bound →
            1 ≤ depth (span text start (start + Z.of_nat n + 1))) as Hind.
  { induction n as [|n IH]; intros Hn.
    - rewrite Z.add_0_r.
      rewrite (depth_span_step text start Hstart start lbrace)
        by (done || lia).
      rewrite span_empty, depth_lbrace. done.
    - specialize (IH ltac:(lia)).
      destruct (lookup_in_range text (start + Z.of_nat (S n))) as [c Hc];
        [lia|].
      rewrite (depth_span_step text start Hstart _ c) by (done || lia).
      replace (start + Z.of_nat (S n)) with (start + Z.of_nat n + 1) in *
        by lia.
      destruct (N.eq_dec c rbrace) as [-> | Hnr].
      + rewrite depth_rbrace.
        destruct (Z.eq_dec (depth (span text start (start + Z.of_nat n + 1))) 1)
          as [Hone | Hne]; [|lia].
        destruct (Hmin (start + Z.of_nat n + 1)); [lia|].
        repeat split; [lia | done |].
        rewrite (depth_span_step text start Hstart _ rbrace) by (done || lia).
        rewrite depth_rbrace. lia.
      + destruct (N.eq_dec c lbrace) as [-> | Hnl].
        * rewrite depth_lbrace. lia.
        * rewrite depth_other by done. lia. }
  intros q Hq. specialize (Hind (Z.to_nat (q - start))).
  replace (start + Z.of_nat (Z.to_nat (q - start))) with q in Hind by lia.
  apply Hind. lia.
Qed.

(** X2. Text appended after a match is not looked at: a match found in
    [text] is the match found in [text ++ more]. *)
Theorem find_matching_brace_app text more start_pos e :
  0 ≤ start_pos → find_matching_brace text start_pos = Ok e → e ≠ -1 →
  find_matching_brace (text ++ more) start_pos = Ok e.
Proof.
  intros Hstart He Hne.
  rewrite find_matching_brace_scan in He by done.
  rewrite find_matching_brace_scan by done.
  destruct (scan (drop (Z.to_nat start_pos) text) 0) as [k|] eqn:E;
    [|simpl in He; congruence].
  pose proof (scan_lt _ _ _ E) as Hk. rewrite length_drop in Hk.
  rewrite drop_app_le by lia.
  by rewrite (scan_app_Some _ more _ _ E).
Qed.

Lemma find_matching_brace_app_witness :
  find_matching_brace (nested ++ py " } more {") 5 = Ok 34.
Proof.
  apply find_matching_brace_app; [lia | reflexivity | lia].
Defined.

(** X4. Blocks nest: an opening brace strictly inside a matched block
    has its own match strictly inside that block. *)
Theorem find_matching_brace_nested text a e b :
  0 ≤ a → text !! Z.to_nat a = Some lbrace →
  find_matching_brace text a = Ok e → e ≠ -1 →
  a < b < e → text !! Z.to_nat b = Some lbrace →
  ∃ e', find_matching_brace text b = Ok e' ∧ b < e' < e.
Proof.
  intros Ha Hopen He Hne Hb Hinner.
  pose proof (find_matching_brace_found_inv _ _ Ha _ He Hne) as Hm.
  pose proof (closes_lt_len _ _ Ha _ (proj1 Hm)) as Hlen.
  pose proof (matching_depth_pos _ _ Ha _ Hopen Hm (b - 1) ltac:(lia)) as Hd.
  replace (b - 1 + 1) with b in Hd by lia.
  destruct Hm as [(_ & Hclose & Hzero) _].
  rewrite (span_split text a b (e + 1)) in Hzero by lia.
  rewrite depth_app in Hzero.
  assert (0 ≤ b) as Hb0 by lia.
  assert (¬ ∀ q, q < e + 1 → ¬ closes text b q) as Hsome.
  { intros Hno.
    pose proof (depth_pos_until text b (e + 1) Hb0 Hinner ltac:(lia) Hno e
                  ltac:(lia)). lia. }
  destruct (find_matching_brace_spec text b Hb0)
    as [[_ Hno] | (e' & He' & [Hcl Hmin])].
  - destruct Hsome. intros q _. apply Hno.
  - exists e'. split; [done|].
    pose proof Hcl as (Hge & Hrb & Hz).
    assert (e' ≠ b) by (intros ->; rewrite Hinner in Hrb; discriminate Hrb).
    assert (e' ≠ e) by (intros ->; lia).
    destruct (Z.lt_ge_cases e' e) as [?|Hbig]; [lia|].
    destruct Hsome. intros q Hq. apply Hmin. lia.
Qed.

(** In [nested] the block opened at 5 is closed at 34; the brace opened
    at 18 is closed at 32. *)
Lemma find_matching_brace_nested_witness :
  ∃ e', find_matching_brace nested 18 = Ok e' ∧ 18 < e' < 34.
Proof.
  apply (find_matching_brace_nested nested 5 34 18);
    [lia | reflexivity | reflexivity | lia | lia | reflexivity].
Defined.

(** ** Sections and their blocks *)

Lemma lstrip_suffix s : ∃ ws, s = ws ++ Py.lstrip s.
Proof.
  induction s as [|c s [ws IH]]; cbn [Py.lstrip]; [by exists []|].
  destruct (Py.isspace c); [|by exists []].
  exists (c :: ws). simpl. by f_equal.
Qed.

Lemma rstrip_prefix s : ∃ ws, s = Py.rstrip s ++ ws.
Proof.
  unfold Py.rstrip. destruct (lstrip_suffix (rev s)) as [ws H].
  exists (rev ws). apply (f_equal (@rev _)) in H.
  by rewrite rev_involutive, rev_app_distr in H.
Qed.

(** The section of a block, followed by the whitespace stripped from
    its end, is the text from the opening brace to the closing one. *)
Lemma code_block_span s start p e :
  first_occ s anchor_code start p → matching s (p + 4) e →
  ∃ ws, span s (p + 5) e = Py.strip (span s (p + 4) e) ++ ws.
Proof.
  intros Hocc Hm.
  pose proof (first_occ_nonneg _ _ _ _ Hocc) as Hp.
  destruct (code_block_section _ _ _ _ Hocc Hm) as (Ho & _ & Hlt & ->).
  destruct (rstrip_prefix (span s (p + 5 + 1) e)) as [ws Hws].
  exists ws. rewrite (span_cons s (p + 5) e lbrace) by (done || lia).
  simpl. by f_equal.
Qed.

(** ** Nesting of the output *)

Lemma scan_app_None cs more d :
  scan cs d = None →
  scan (cs ++ more) d
  = (λ k, length cs + k)%nat <$> scan more (d + depth cs).
Proof.
  revert d. induction cs as [|c cs IH]; intros d; cbn [scan app].
  - intros _. unfold depth. simpl. rewrite Z.add_0_r.
    by destruct (scan more d).
  - assert (∀ d', d' = d + depth [c] → S <$> scan cs d' = None →
              S <$> scan (cs ++ more) d'
              = (λ k, length (c :: cs) + k)%nat
                  <$> scan more (d + depth (c :: cs))) as Hrec.
    { intros d' -> H. destruct (scan cs _) eqn:E; [done|].
      rewrite (IH _ E), (depth_cons c cs), Z.add_assoc.
      by destruct (scan more _). }
    destruct (N.eqb_spec c lbrace) as [-> | Hnl];
      [apply Hrec; by rewrite depth_lbrace|].
    destruct (N.eqb_spec c rbrace) as [-> | Hnr].
    + destruct (d - 1 =? 0); [done|].
      apply Hrec. rewrite depth_rbrace. lia.
    + apply Hrec. rewrite depth_other by done. lia.
Qed.

Lemma scan_None_positive cs d :
  (∀ k, (0 < k ≤ length cs)%nat → d + depth (take k cs) ≠ 0) →
  scan cs d = None.
Proof.
  revert d. induction cs as [|c cs IH]; intros d Hpos; cbn [scan]; [done|].
  assert (∀ d', d' = d + depth [c] → S <$> scan cs d' = None) as Hrec.
  { intros d' ->. rewrite IH; [done|]. intros k Hk.
    specialize (Hpos (S k) ltac:(simpl; lia)).
    cbn [take] in Hpos. rewrite depth_cons in Hpos. lia. }
  specialize (Hpos 1%nat ltac:(simpl; lia)). cbn [take] in Hpos.
  rewrite take_0 in Hpos.
  destruct (N.eqb_spec c lbrace) as [-> | Hnl];
    [apply Hrec; by rewrite depth_lbrace|].
  destruct (N.eqb_spec c rbrace) as [-> | Hnr].
  - rewrite depth_rbrace in Hpos.
    destruct (Z.eqb_spec (d - 1) 0); [lia|].
    apply Hrec. rewrite depth_rbrace. lia.
  - apply Hrec. rewrite depth_other by done. lia.
Qed.

(** Inside a section the depth never falls below one, and it ends at
    one. *)
Lemma section_depth s start p e :
  first_occ s anchor_code start p → matching s (p + 4) e →
  let c := Py.strip (span s (p + 4) e) in
  depth c = 1 ∧ ∀ k, (0 < k ≤ length c)%nat → 1 ≤ depth (take k c).
Proof.
  intros Hocc Hm c.
  pose proof (first_occ_nonneg _ _ _ _ Hocc) as Hp.
  pose proof (count_section s (p + 4) e ltac:(lia) Hm) as Hcount.
  split; [unfold depth; subst c; lia|].
  destruct (code_block_section _ _ _ _ Hocc Hm) as (Ho & Hm5 & Hlt & _).
  destruct (code_block_span _ _ _ _ Hocc Hm) as [ws Hws]. fold c in Hws.
  intros k Hk.
  assert (length c ≤ Z.to_nat (e - (p + 5)))%nat as Hlen.
  { apply (f_equal length) in Hws. rewrite length_app in Hws.
    unfold span in Hws. rewrite length_take in Hws. lia. }
  assert (take k c = span s (p + 5) (p + 5 + Z.of_nat k)) as ->.
  { rewrite <- (take_app_le c ws) by lia. rewrite <- Hws. unfold span.
    rewrite take_take. do 2 f_equal. lia. }
  pose proof (matching_depth_pos s (p + 5) ltac:(lia) e Ho Hm5
                (p + 5 + Z.of_nat k - 1) ltac:(lia)) as Hd.
  by replace (p + 5 + Z.of_nat k - 1 + 1) with (p + 5 + Z.of_nat k) in Hd
    by lia.
Qed.

(** A section wrapped after [before {] and closed three times: the
    brace after [before] is matched by the last character. *)
Lemma wrapped_section_match (before c : str) :
  depth c = 1 → (∀ k, (0 < k ≤ length c)%nat → 1 ≤ depth (take k c)) →
  let out := (before ++ [lbrace] ++ [newline] ++ py "    code {" ++ c
              ++ [newline] ++ py "    }" ++ [newline] ++ py "}")
             ++ closing in
  find_matching_brace out (Py.len before) = Ok (Py.len out - 1).
Proof.
  intros Hd Hpos out.
  rewrite find_matching_brace_scan by (unfold Py.len; lia).
  replace (Z.to_nat (Py.len before)) with (length before)
    by (unfold Py.len; lia).
  subst out. rewrite <- !app_assoc, drop_app_length.
  change ([lbrace] ++ [newline] ++ py "    code {" ++ ?l)
    with ((lbrace :: newline :: py "    code {") ++ l).
  rewrite scan_app_None by reflexivity.
  change (0 + depth (lbrace :: newline :: py "    code {")) with 2.
  rewrite scan_app_None.
  2:{ apply scan_None_positive. intros k Hk. specialize (Hpos k Hk). lia. }
  rewrite Hd.
  change (scan _ (2 + 1)) with (Some 9%nat).
  unfold reported, Py.len. cbn [fmap option_fmap option_map].
  rewrite !length_app. simpl. f_equal. lia.
Qed.

(** X9. After a successful extraction each output is well nested: in the
    content written to either file, the match of the opening brace of
    the [object] line, as [find_matching_brace] computes it, is the last
    character of the file, the closing brace that [split_yul_code]
    appends. *)
Theorem split_yul_code_outputs_nested yul_code c r :
  extract_code_sections yul_code = Ok (Some c, Some r) →
  find_matching_brace (output_code1 c ++ closing)
    (Py.len anchor_creation - 1)
  = Ok (Py.len (output_code1 c ++ closing) - 1)
  ∧ find_matching_brace (output_code2 r ++ closing)
      (Py.len anchor_runtime - 1)
    = Ok (Py.len (output_code2 r ++ closing) - 1).
Proof.
  intros Hex.
  destruct (extract_code_sections_some_inv _ _ _ Hex)
    as (p1 & p2 & e1 & p3 & p4 & e2 & [H1 H2 H3 H4 H5 H6] & -> & ->).
  destruct (section_depth _ _ _ _ H2 H3) as [Hd1 Hpos1].
  destruct (section_depth _ _ _ _ H5 H6) as [Hd2 Hpos2].
  split.
  - apply (wrapped_section_match
             (py "object " ++ [dquote] ++ py "plonk_verifier" ++ [dquote]
              ++ py " ") _ Hd1 Hpos1).
  - apply (wrapped_section_match
             (py "object " ++ [dquote] ++ py "Runtime" ++ [dquote]
              ++ py " ") _ Hd2 Hpos2).
Qed.

Lemma split_yul_code_outputs_nested_witness :
  find_matching_brace (output_code1 (py "{ MSTORE(0,1)") ++ closing)
    (Py.len anchor_creation - 1)
  = Ok (Py.len (output_code1 (py "{ MSTORE(0,1)") ++ closing) - 1)
  ∧ find_matching_brace (output_code2 (py "{ RETURN(0,0)") ++ closing)
      (Py.len anchor_runtime - 1)
    = Ok (Py.len (output_code2 (py "{ RETURN(0,0)") ++ closing) - 1).
Proof.
  apply (split_yul_code_outputs_nested sample).
  exact extract_code_sections_sample.
Defined.

(** ** [concatenate_files] *)

Lemma contents_missing (m : gmap str str) paths path :
  path ∈ paths → m !! path = None → contents m paths = None.
Proof.
  intros Hin Hnone. induction paths as [|p rest IH]; cbn [contents].
  - by apply elem_of_nil in Hin.
  - apply elem_of_cons in Hin as [-> | Hin]; [by rewrite Hnone|].
    rewrite (IH Hin). by destruct (m !! p).
Qed.

(** The read loop leaves the environment as it is and returns what it
    had accumulated followed by the contents of the files, or raises at
    the first missing one. *)
Lemma concatenate_files_loop_spec input_files acc w :
  concatenate_files_loop input_files acc w
  = (w, match contents (files w) input_files with
        | Some data => Ok (acc ++ data)
        | None => Raise FileNotFoundError
        end).
Proof.
  revert acc. induction input_files as [|path rest IH]; intros acc;
    cbn [concatenate_files_loop contents].
  - unfold mret, io_ret. by rewrite app_nil_r.
  - unfold mbind, io_bind, open_read, read_file.
    destruct (files w !! path) as [data|]; [|done].
    rewrite IH. destruct (contents (files w) rest); [|done].
    by rewrite app_assoc.
Qed.

Lemma concatenate_files_run output_file input_files w data :
  contents (files w) input_files = Some data →
  concatenate_files output_file input_files w
  = (World (<[output_file := data]> (files w)) (stdout w), Ok ()).
Proof.
  intros Hdata. unfold concatenate_files, mbind, io_bind.
  by rewrite concatenate_files_loop_spec, Hdata.
Qed.

(** X10. When every input file exists, [concatenate_files] writes to the
    output path the contents the input files had before the call, in
    the order given, also when the output path is one of the inputs; it
    prints nothing and changes no other file. *)
Theorem concatenate_files_written output_file input_files w data :
  contents (files w) input_files = Some data →
  concatenate_files output_file input_files w
  = (World (<[output_file := data]> (files w)) (stdout w), Ok ()).
Proof. apply concatenate_files_run. Qed.

(** A file appended to itself. *)
Lemma concatenate_files_written_witness :
  concatenate_files (py "in.yul") [py "in.yul"; py "in.yul"]
    (disk (py "ab"))
  = (World (<[py "in.yul" := py "abab"]> (files (disk (py "ab")))) [], Ok ()).
Proof.
  apply (concatenate_files_written (py "in.yul") [py "in.yul"; py "in.yul"]
           (disk (py "ab")) (py "abab")).
  cbn [contents files disk]. by rewrite lookup_singleton_eq.
Defined.

(** X11. When one of the input files is missing, [concatenate_files]
    raises [FileNotFoundError] and leaves the environment as it was: the
    output file is neither created nor truncated, whatever the position
    of the missing file in the list. *)
Theorem concatenate_files_missing output_file input_files w path :
  path ∈ input_files → files w !! path = None →
  concatenate_files output_file input_files w
  = (w, Raise FileNotFoundError).
Proof.
  intros Hin Hnone. unfold concatenate_files, mbind, io_bind.
  by rewrite concatenate_files_loop_spec, (contents_missing _ _ _ Hin Hnone).
Qed.

Lemma concatenate_files_missing_witness :
  concatenate_files (py "out") [py "in.yul"; py "gone"] (disk (py "ab"))
  = (disk (py "ab"), Raise FileNotFoundError).
Proof.
  apply (concatenate_files_missing _ _ _ (py "gone")).
  - apply list_elem_of_In. right. left. reflexivity.
  - by apply lookup_singleton_ne.
Defined.
